(** * Fixed-step integrators of ODEs/ODE.py: Euler, RK2 and RK4

    A shallow embedding of the three integrators of [ODEs/ODE.py] and the
    properties of their trajectories.

    The Python functions work on numpy arrays of numbers.  The embedding keeps
    the number type abstract (class [Arith]: the operators [+ - * /] and the
    integer literals the source uses), so that every definition below is the
    source text read over any arithmetic, and instantiates it with IEEE
    binary64, the numbers numpy computes with.  Properties that only depend
    on the control flow and on the array accesses are proved for every
    arithmetic; properties of the values are proved for binary64, with its
    rounding, infinities and NaN. *)

From Stdlib Require Import ZArith Uint63 Floats.
From stdpp Require Import base list.

(** ** Python exceptions and the error monad *)

Inductive exn := IndexError.

Inductive result (T : Type) :=
  | Ok (v : T)
  | Raise (e : exn).
Arguments Ok {T} v.
Arguments Raise {T} e.

#[export] Instance result_ret : MRet result := fun T v => Ok v.
#[export] Instance result_bind : MBind result := fun T U k m =>
  match m with
  | Ok v => k v
  | Raise e => Raise e
  end.

(** [for i in range(n): s = body(i, s)], counting up from [i]. *)
Fixpoint for_range {St : Type} (body : nat -> St -> result St)
    (i n : nat) (s : St) : result St :=
  match n with
  | O => Ok s
  | S n' => s' ← body i s; for_range body (S i) n' s'
  end.

(** ** Arithmetic of the array elements *)

(** The operators of the source on its numbers, and [lit z] for an integer
    literal [z] used as such a number ([np.zeros] is [lit 0], and the source
    writes [2], [1/6]). *)
Class Arith (A : Type) := {
  lit : Z -> A;
  add : A -> A -> A;
  sub : A -> A -> A;
  mul : A -> A -> A;
  div : A -> A -> A
}.

Declare Scope num_scope.
Delimit Scope num_scope with num.
Infix "+" := add : num_scope.
Infix "-" := sub : num_scope.
Infix "*" := mul : num_scope.
Infix "/" := div : num_scope.

(** numpy's float64.  Division is total, as numpy's is (division by zero
    gives an infinity or a NaN, not an exception). *)
#[export] Instance float_arith : Arith float := {|
  lit z := if (z <? 0)%Z
           then PrimFloat.opp (PrimFloat.of_uint63 (Uint63.of_Z (- z)))
           else PrimFloat.of_uint63 (Uint63.of_Z z);
  add := PrimFloat.add;
  sub := PrimFloat.sub;
  mul := PrimFloat.mul;
  div := PrimFloat.div
|}.

(** ** The integrators *)

Inductive method := euler | rk2 | rk4.

Section Integrators.
Context {A : Type} `{Arith A}.
Local Open Scope num_scope.

(** [a[i]] on a numpy array, for an index [i >= 0]. *)
Definition getitem (a : list A) (i : nat) : result A :=
  match a !! i with
  | Some v => Ok v
  | None => Raise IndexError
  end.

(** [a[i] = v] on a numpy array, for an index [i >= 0]. *)
Definition setitem (a : list A) (i : nat) (v : A) : result (list A) :=
  if decide (i < length a)%nat then Ok (<[i:=v]> a) else Raise IndexError.

(** [np.zeros(n)] *)
Definition zeros (n : nat) : list A := replicate n (lit 0).

(** ODE.py, lines 45-51.  [t.size - 1] is negative for an empty array, for
    which [range] is empty, as it is for the truncated subtraction here.
    [x[i]] and [t[i]] are read once per iteration. *)
Definition Euler (f : A -> A -> A) (t : list A) (x0 : A) : result (list A) :=
  t1 ← getitem t 1;
  t0 ← getitem t 0;
  let h := t1 - t0 in
  let x := zeros (length t) in
  x ← setitem x 0 x0;
  for_range (fun i x =>
      xi ← getitem x i;
      ti ← getitem t i;
      setitem x (i + 1)%nat (xi + h * f xi ti))
    0 (length t - 1)%nat x.

(** ODE.py, lines 78-86. *)
Definition RK2 (f : A -> A -> A) (t : list A) (x0 : A) : result (list A) :=
  t1 ← getitem t 1;
  t0 ← getitem t 0;
  let h := t1 - t0 in
  let x := zeros (length t) in
  x ← setitem x 0 x0;
  for_range (fun i x =>
      xi ← getitem x i;
      ti ← getitem t i;
      let k1 := h * f xi ti in
      let k2 := h * f (xi + k1 / lit 2) (ti + h / lit 2) in
      setitem x (i + 1)%nat (xi + k2))
    0 (length t - 1)%nat x.

(** ODE.py, lines 113-123. *)
Definition RK4 (f : A -> A -> A) (t : list A) (x0 : A) : result (list A) :=
  t1 ← getitem t 1;
  t0 ← getitem t 0;
  let h := t1 - t0 in
  let x := zeros (length t) in
  x ← setitem x 0 x0;
  for_range (fun i x =>
      xi ← getitem x i;
      ti ← getitem t i;
      let k1 := h * f xi ti in
      let k2 := h * f (xi + k1 / lit 2) (ti + h / lit 2) in
      let k3 := h * f (xi + k2 / lit 2) (ti + h / lit 2) in
      let k4 := h * f (xi + k3) (ti + h) in
      setitem x (i + 1)%nat
        (xi + lit 1 / lit 6 * (k1 + lit 2 * k2 + lit 2 * k3 + k4)))
    0 (length t - 1)%nat x.

(** The three functions, to speak of them together. *)
Definition integrate (m : method) : (A -> A -> A) -> list A -> A -> result (list A) :=
  match m with
  | euler => Euler
  | rk2 => RK2
  | rk4 => RK4
  end.

(** *** The step of each method and the trajectory it generates *)

Definition euler_step (f : A -> A -> A) (h xi ti : A) : A :=
  xi + h * f xi ti.

Definition rk2_step (f : A -> A -> A) (h xi ti : A) : A :=
  let k1 := h * f xi ti in
  let k2 := h * f (xi + k1 / lit 2) (ti + h / lit 2) in
  xi + k2.

Definition rk4_step (f : A -> A -> A) (h xi ti : A) : A :=
  let k1 := h * f xi ti in
  let k2 := h * f (xi + k1 / lit 2) (ti + h / lit 2) in
  let k3 := h * f (xi + k2 / lit 2) (ti + h / lit 2) in
  let k4 := h * f (xi + k3) (ti + h) in
  xi + lit 1 / lit 6 * (k1 + lit 2 * k2 + lit 2 * k3 + k4).

Definition step_of (m : method) : (A -> A -> A) -> A -> A -> A -> A :=
  match m with
  | euler => euler_step
  | rk2 => rk2_step
  | rk4 => rk4_step
  end.

(** The loop of the three functions, over the step [g h]. *)
Definition march (g : A -> A -> A -> A) (t : list A) (x0 : A) : result (list A) :=
  t1 ← getitem t 1;
  t0 ← getitem t 0;
  let h := t1 - t0 in
  x ← setitem (zeros (length t)) 0 x0;
  for_range (fun i x =>
      xi ← getitem x i;
      ti ← getitem t i;
      setitem x (i + 1)%nat (g h xi ti))
    0 (length t - 1)%nat x.

(** The values [x, g x t_0, g (g x t_0) t_1, ...] along the grid points [ts]. *)
Fixpoint trajectory (g : A -> A -> A) (x : A) (ts : list A) : list A :=
  match ts with
  | [] => [x]
  | ti :: ts' => x :: trajectory g (g x ti) ts'
  end.

End Integrators.

(** ** The integrators with the calls of [f] recorded

    [f] is a callback of the caller.  To count and to locate its evaluations
    the three functions are read once more, in a monad that logs the argument
    pair of every call of [f] next to the result or exception. *)

Section Instrumented.
Context {A : Type} `{Arith A}.
Local Open Scope num_scope.

(** The log of the calls made so far, and the outcome. *)
Definition traced (T : Type) : Type := list (A * A) * result T.

Definition traced_ret {T : Type} (v : T) : traced T := ([], Ok v).

Definition traced_bind {T U : Type} (k : T -> traced U) (c : traced T) : traced U :=
  match c with
  | (l, Ok v) => let (l', r) := k v in (l ++ l', r)
  | (l, Raise e) => (l, Raise e)
  end.

(** An array access or update: it logs nothing. *)
Definition quiet {T : Type} (r : result T) : traced T := ([], r).

(** [f(x, t)]: the call is logged. *)
Definition call (f : A -> A -> A) (x t : A) : traced A := ([(x, t)], Ok (f x t)).

Fixpoint for_range_traced {St : Type} (body : nat -> St -> traced St)
    (i n : nat) (s : St) : traced St :=
  match n with
  | O => traced_ret s
  | S n' => traced_bind (for_range_traced body (S i) n') (body i s)
  end.

Notation "x <~ c ; k" := (traced_bind (fun x => k) c)
  (at level 20, c at level 100, k at level 200, only parsing).

(** ODE.py, lines 45-51. *)
Definition Euler_traced (f : A -> A -> A) (t : list A) (x0 : A) : traced (list A) :=
  t1 <~ quiet (getitem t 1);
  t0 <~ quiet (getitem t 0);
  let h := t1 - t0 in
  let x := zeros (length t) in
  x <~ quiet (setitem x 0 x0);
  for_range_traced (fun i x =>
      xi <~ quiet (getitem x i);
      ti <~ quiet (getitem t i);
      d <~ call f xi ti;
      quiet (setitem x (i + 1)%nat (xi + h * d)))
    0 (length t - 1)%nat x.

(** ODE.py, lines 78-86. *)
Definition RK2_traced (f : A -> A -> A) (t : list A) (x0 : A) : traced (list A) :=
  t1 <~ quiet (getitem t 1);
  t0 <~ quiet (getitem t 0);
  let h := t1 - t0 in
  let x := zeros (length t) in
  x <~ quiet (setitem x 0 x0);
  for_range_traced (fun i x =>
      xi <~ quiet (getitem x i);
      ti <~ quiet (getitem t i);
      d1 <~ call f xi ti;
      let k1 := h * d1 in
      d2 <~ call f (xi + k1 / lit 2) (ti + h / lit 2);
      let k2 := h * d2 in
      quiet (setitem x (i + 1)%nat (xi + k2)))
    0 (length t - 1)%nat x.

(** ODE.py, lines 113-123. *)
Definition RK4_traced (f : A -> A -> A) (t : list A) (x0 : A) : traced (list A) :=
  t1 <~ quiet (getitem t 1);
  t0 <~ quiet (getitem t 0);
  let h := t1 - t0 in
  let x := zeros (length t) in
  x <~ quiet (setitem x 0 x0);
  for_range_traced (fun i x =>
      xi <~ quiet (getitem x i);
      ti <~ quiet (getitem t i);
      d1 <~ call f xi ti;
      let k1 := h * d1 in
      d2 <~ call f (xi + k1 / lit 2) (ti + h / lit 2);
      let k2 := h * d2 in
      d3 <~ call f (xi + k2 / lit 2) (ti + h / lit 2);
      let k3 := h * d3 in
      d4 <~ call f (xi + k3) (ti + h);
      let k4 := h * d4 in
      quiet (setitem x (i + 1)%nat
               (xi + lit 1 / lit 6 * (k1 + lit 2 * k2 + lit 2 * k3 + k4))))
    0 (length t - 1)%nat x.

Definition integrate_traced (m : method)
    : (A -> A -> A) -> list A -> A -> traced (list A) :=
  match m with
  | euler => Euler_traced
  | rk2 => RK2_traced
  | rk4 => RK4_traced
  end.

(** The number of evaluations of [f] in one step of each method. *)
Definition stages (m : method) : nat :=
  match m with
  | euler => 1
  | rk2 => 2
  | rk4 => 4
  end.

(** The points at which one step evaluates [f], in the order of the calls. *)
Definition evals_of (m : method) (f : A -> A -> A) (h xi ti : A) : list (A * A) :=
  match m with
  | euler => [(xi, ti)]
  | rk2 =>
      let k1 := h * f xi ti in
      [(xi, ti); (xi + k1 / lit 2, ti + h / lit 2)]
  | rk4 =>
      let k1 := h * f xi ti in
      let k2 := h * f (xi + k1 / lit 2) (ti + h / lit 2) in
      let k3 := h * f (xi + k2 / lit 2) (ti + h / lit 2) in
      [(xi, ti); (xi + k1 / lit 2, ti + h / lit 2);
       (xi + k2 / lit 2, ti + h / lit 2); (xi + k3, ti + h)]
  end.

(** The evaluation points along a trajectory. *)
Fixpoint evals_along (g : A -> A -> A) (ev : A -> A -> list (A * A))
    (x : A) (ts : list A) : list (A * A) :=
  match ts with
  | [] => []
  | ti :: ts' => ev x ti ++ evals_along g ev (g x ti) ts'
  end.

End Instrumented.

Arguments traced : clear implicits.

(** ** Classes of binary64 numbers, read on their specification *)

Definition sf_zero (x : spec_float) : bool :=
  match x with
  | S754_zero _ => true
  | _ => false
  end.

Definition sf_finite (x : spec_float) : bool :=
  match x with
  | S754_zero _ | S754_finite _ _ _ => true
  | _ => false
  end.

Definition sf_nan (x : spec_float) : bool :=
  match x with
  | S754_nan => true
  | _ => false
  end.


(** ** The loop computes the trajectory *)

Section Loop.
Context {A : Type} `{Arith A}.
Local Open Scope num_scope.
Implicit Types (ts xs : list A) (f : A -> A -> A).

Lemma integrate_march m f (t : list A) x0 :
  integrate m f t x0 = march (step_of m f) t x0.
Proof. destruct m; reflexivity. Qed.

Lemma getitem_Some (a : list A) i v : a !! i = Some v -> getitem a i = Ok v.
Proof. unfold getitem. intros ->. reflexivity. Qed.

Lemma getitem_None (a : list A) i : (length a <= i)%nat -> getitem a i = Raise IndexError.
Proof. unfold getitem. intros Hi. rewrite (lookup_ge_None_2 a i Hi). reflexivity. Qed.

Lemma setitem_lt (a : list A) i v :
  (i < length a)%nat -> setitem a i v = Ok (<[i:=v]> a).
Proof. unfold setitem. intros Hi. case_decide; [reflexivity | lia]. Qed.

Lemma length_trajectory (g : A -> A -> A) x ts : length (trajectory g x ts) = S (length ts).
Proof.
  revert x. induction ts as [|a ts IH]; intros x; simpl; [reflexivity|].
  rewrite IH. reflexivity.
Qed.

Lemma trajectory_head (g : A -> A -> A) x ts : trajectory g x ts !! 0%nat = Some x.
Proof. destruct ts; reflexivity. Qed.

Lemma trajectory_step (g : A -> A -> A) x ts i ti :
  ts !! i = Some ti ->
  exists xi, trajectory g x ts !! i = Some xi /\
             trajectory g x ts !! S i = Some (g xi ti).
Proof.
  revert x i. induction ts as [|a ts IH]; intros x i Hi; [discriminate|].
  destruct i as [|i]; simpl in *.
  - injection Hi as ->. exists x. split; [reflexivity|apply trajectory_head].
  - apply IH, Hi.
Qed.


Lemma trajectory_take (g : A -> A -> A) x ts i :
  take (S i) (trajectory g x ts) = trajectory g x (take i ts).
Proof.
  revert x i. induction ts as [|a ts IH]; intros x i.
  - rewrite take_nil. cbn [trajectory take]. rewrite take_nil. reflexivity.
  - destruct i as [|i]; [reflexivity|].
    cbn [trajectory take]. f_equal. apply IH.
Qed.

(** The loop, started at index [i] on an array that holds the values
    computed so far, the current value [xi] and [n] cells still to fill. *)
Lemma for_range_trajectory (g : A -> A -> A) (t : list A) n : forall i xs xi,
  length xs = i -> (i + n <= length t)%nat ->
  for_range (fun i x =>
      xi ← getitem x i;
      ti ← getitem t i;
      setitem x (i + 1)%nat (g xi ti))
    i n (xs ++ xi :: zeros n)
  = Ok (xs ++ trajectory g xi (take n (drop i t))).
Proof.
  induction n as [|n IH]; intros i xs xi Hxs Hin.
  - reflexivity.
  - destruct (lookup_lt_is_Some_2 t i ltac:(lia)) as [ti Hti].
    rewrite (drop_S _ _ _ Hti). cbn [take trajectory for_range zeros replicate].
    assert (Hxi : (xs ++ xi :: lit 0 :: replicate n (lit 0)) !! i = Some xi).
    { rewrite lookup_app_r by lia. replace (i - length xs)%nat with 0%nat by lia.
      reflexivity. }
    rewrite (getitem_Some _ _ _ Hxi). cbn [mbind result_bind].
    rewrite (getitem_Some _ _ _ Hti). cbn [mbind result_bind].
    rewrite setitem_lt by (rewrite length_app; simpl; lia).
    replace (<[(i + 1)%nat:=g xi ti]> (xs ++ xi :: lit 0 :: replicate n (lit 0)))
      with ((xs ++ [xi]) ++ g xi ti :: zeros n).
    2:{ rewrite insert_app_r_alt by lia.
        replace (i + 1 - length xs)%nat with 1%nat by lia.
        rewrite <- app_assoc. reflexivity. }
    cbn [mbind result_bind]. rewrite (IH (S i)).
    + rewrite <- app_assoc. reflexivity.
    + rewrite length_app. simpl. lia.
    + lia.
Qed.

(** On a grid of at least two points the loop returns the trajectory of the
    step along all grid points but the last. *)
Lemma march_trajectory (g : A -> A -> A -> A) t0 t1 ts x0 :
  march g (t0 :: t1 :: ts) x0
  = Ok (trajectory (g (t1 - t0)) x0 (take (S (length ts)) (t0 :: t1 :: ts))).
Proof.
  unfold march. cbn [getitem lookup list_lookup mbind result_bind length zeros replicate].
  rewrite setitem_lt by (simpl; lia). cbn [mbind result_bind].
  replace (S (S (length ts)) - 1)%nat with (S (length ts)) by lia.
  change (<[0%nat:=x0]> (lit 0 :: lit 0 :: replicate (length ts) (lit 0)))
    with ([] ++ x0 :: zeros (S (length ts))).
  rewrite (for_range_trajectory (g (t1 - t0)) (t0 :: t1 :: ts) (S (length ts)) 0 [] x0);
    [reflexivity | reflexivity | simpl; lia].
Qed.

(** On a shorter grid the first statement, [h = t[1] - t[0]], raises. *)
Lemma march_short (g : A -> A -> A -> A) (t : list A) x0 :
  (length t < 2)%nat -> march g t x0 = Raise IndexError.
Proof.
  intros Ht. unfold march. rewrite (getitem_None t 1) by lia. reflexivity.
Qed.

Lemma march_Ok_inv (g : A -> A -> A -> A) (t : list A) x0 x :
  march g t x0 = Ok x ->
  exists t0 t1 ts, t = t0 :: t1 :: ts /\
    x = trajectory (g (t1 - t0)) x0 (take (S (length ts)) t).
Proof.
  destruct t as [|t0 [|t1 ts]].
  - rewrite march_short by (simpl; lia). discriminate.
  - rewrite march_short by (simpl; lia). discriminate.
  - rewrite march_trajectory. intros [= <-]. eauto.
Qed.

(** The recurrence that the loop establishes, for any step [g]. *)
Lemma march_recurrence (g : A -> A -> A -> A) (t : list A) x0 :
  (2 <= length t)%nat ->
  exists t0 t1 x,
    t !! 0%nat = Some t0 /\ t !! 1%nat = Some t1 /\
    march g t x0 = Ok x /\
    length x = length t /\
    x !! 0%nat = Some x0 /\
    forall i, (i + 2 <= length t)%nat ->
      exists xi ti, x !! i = Some xi /\ t !! i = Some ti /\
                    x !! (i + 1)%nat = Some (g (t1 - t0) xi ti).
Proof.
  destruct t as [|t0 [|t1 ts]]; simpl; try lia. intros _.
  exists t0, t1. eexists. split; [reflexivity|]. split; [reflexivity|].
  split; [apply march_trajectory|].
  split; [|split].
  - rewrite length_trajectory, length_take. simpl. lia.
  - apply trajectory_head.
  - intros i Hi.
    destruct (lookup_lt_is_Some_2 (t0 :: t1 :: ts) i ltac:(simpl; lia)) as [ti Hti].
    destruct (trajectory_step (g (t1 - t0)) x0
                (take (S (length ts)) (t0 :: t1 :: ts)) i ti) as (xi & Hxi & Hnext).
    { rewrite lookup_take_lt by lia. exact Hti. }
    exists xi, ti. replace (i + 1)%nat with (S i) by lia. auto.
Qed.

(** Two grids that agree on their points [0 .. max (i-1) 1] give
    trajectories that agree on their entries [0 .. i]. *)
Lemma march_prefix (g : A -> A -> A -> A) x0 i (u v : list A) :
  (Nat.max (i + 1) 2 <= length u)%nat ->
  (Nat.max (i + 1) 2 <= length v)%nat ->
  (forall j, (j <= Nat.max (i - 1) 1)%nat -> u !! j = v !! j) ->
  exists xs ys,
    march g u x0 = Ok xs /\ march g v x0 = Ok ys /\
    (S i <= length xs)%nat /\
    take (S i) xs = take (S i) ys.
Proof.
  intros Hu Hv Huv.
  destruct u as [|u0 [|u1 us]]; simpl in Hu; try lia.
  destruct v as [|v0 [|v1 vs]]; simpl in Hv; try lia.
  pose proof (Huv 0%nat ltac:(lia)) as E0. injection E0 as <-.
  pose proof (Huv 1%nat ltac:(lia)) as E1. injection E1 as <-.
  do 2 eexists. split; [apply march_trajectory|]. split; [apply march_trajectory|].
  split.
  - rewrite length_trajectory, length_take. simpl. lia.
  - rewrite !trajectory_take, !take_take. f_equal.
    apply list_eq. intros j.
    destruct (decide (j < i)%nat) as [Hj|Hj].
    + rewrite !lookup_take_lt by (simpl; lia). apply Huv. lia.
    + rewrite !lookup_take_ge by (simpl; lia). reflexivity.
Qed.

End Loop.

(** ** Properties of the control flow, for every arithmetic *)

Section Structure.
Context {A : Type} `{Arith A}.
Local Open Scope num_scope.

(** C1 (amended): on a degenerate grid, of length 0 or 1, each of the three
    integrators raises [IndexError] (at [h = t[1] - t[0]], the first
    statement of each function) and returns no result. *)
Theorem degenerate_grid_raises (m : method) (f : A -> A -> A) (t : list A) (x0 : A) :
  (length t < 2)%nat -> integrate m f t x0 = Raise IndexError.
Proof.
  intros Ht. rewrite integrate_march. apply march_short, Ht.
Qed.

(** C2: on a grid [t] of length at least 2, [Euler f t x0] returns a
    sequence [x] as long as [t], with [x[0] = x0] and
    [x[i+1] = x[i] + h * f(x[i], t[i])] for every [i <= N-2], where
    [h = t[1] - t[0]] whatever the spacing of the later points. *)
Theorem Euler_recurrence (f : A -> A -> A) (t : list A) (x0 : A) :
  (2 <= length t)%nat ->
  exists t0 t1 x,
    t !! 0%nat = Some t0 /\ t !! 1%nat = Some t1 /\
    Euler f t x0 = Ok x /\
    length x = length t /\
    x !! 0%nat = Some x0 /\
    forall i, (i + 2 <= length t)%nat ->
      exists xi ti, x !! i = Some xi /\ t !! i = Some ti /\
        let h := t1 - t0 in
        x !! (i + 1)%nat = Some (xi + h * f xi ti).
Proof. exact (march_recurrence (euler_step f) t x0). Qed.

(** C3: on a grid [t] of length at least 2, [RK2 f t x0] returns a sequence
    [x] as long as [t], with [x[0] = x0] and [x[i+1] = x[i] + k2] for every
    [i <= N-2], where [k1 = h * f(x[i], t[i])],
    [k2 = h * f(x[i] + k1/2, t[i] + h/2)] and [h = t[1] - t[0]]. *)
Theorem RK2_recurrence (f : A -> A -> A) (t : list A) (x0 : A) :
  (2 <= length t)%nat ->
  exists t0 t1 x,
    t !! 0%nat = Some t0 /\ t !! 1%nat = Some t1 /\
    RK2 f t x0 = Ok x /\
    length x = length t /\
    x !! 0%nat = Some x0 /\
    forall i, (i + 2 <= length t)%nat ->
      exists xi ti, x !! i = Some xi /\ t !! i = Some ti /\
        let h := t1 - t0 in
        let k1 := h * f xi ti in
        let k2 := h * f (xi + k1 / lit 2) (ti + h / lit 2) in
        x !! (i + 1)%nat = Some (xi + k2).
Proof. exact (march_recurrence (rk2_step f) t x0). Qed.

(** C4: on a grid [t] of length at least 2, [RK4 f t x0] returns a sequence
    [x] as long as [t], with [x[0] = x0] and
    [x[i+1] = x[i] + (1/6) (k1 + 2 k2 + 2 k3 + k4)] for every [i <= N-2],
    where [k1 = h * f(x[i], t[i])], [k2 = h * f(x[i] + k1/2, t[i] + h/2)],
    [k3 = h * f(x[i] + k2/2, t[i] + h/2)], [k4 = h * f(x[i] + k3, t[i] + h)]
    and [h = t[1] - t[0]]. *)
Theorem RK4_recurrence (f : A -> A -> A) (t : list A) (x0 : A) :
  (2 <= length t)%nat ->
  exists t0 t1 x,
    t !! 0%nat = Some t0 /\ t !! 1%nat = Some t1 /\
    RK4 f t x0 = Ok x /\
    length x = length t /\
    x !! 0%nat = Some x0 /\
    forall i, (i + 2 <= length t)%nat ->
      exists xi ti, x !! i = Some xi /\ t !! i = Some ti /\
        let h := t1 - t0 in
        let k1 := h * f xi ti in
        let k2 := h * f (xi + k1 / lit 2) (ti + h / lit 2) in
        let k3 := h * f (xi + k2 / lit 2) (ti + h / lit 2) in
        let k4 := h * f (xi + k3) (ti + h) in
        x !! (i + 1)%nat
          = Some (xi + lit 1 / lit 6 * (k1 + lit 2 * k2 + lit 2 * k3 + k4)).
Proof. exact (march_recurrence (rk4_step f) t x0). Qed.

(** Whatever sequence an integrator returns starts with [x0] and is as long
    as the grid. *)
Lemma integrate_Ok_inv (m : method) (f : A -> A -> A) (t : list A) (x0 : A) (x : list A) :
  integrate m f t x0 = Ok x ->
  (2 <= length t)%nat /\ x !! 0%nat = Some x0 /\ length x = length t.
Proof.
  rewrite integrate_march. intros Hx.
  destruct (march_Ok_inv _ _ _ _ Hx) as (t0 & t1 & ts & -> & ->).
  split; [simpl; lia|]. split; [apply trajectory_head|].
  rewrite length_trajectory, length_take. simpl. lia.
Qed.

(** C5 (amended): on every grid of at least two points, each of the three
    integrators returns a sequence whose first entry is [x0]. *)
Theorem first_entry_is_x0 (m : method) (f : A -> A -> A) (t : list A) (x0 : A) :
  (2 <= length t)%nat ->
  exists x, integrate m f t x0 = Ok x /\ x !! 0%nat = Some x0.
Proof.
  intros Ht. rewrite integrate_march.
  destruct (march_recurrence (step_of m f) t x0 Ht)
    as (t0 & t1 & x & _ & _ & Hx & _ & Hx0 & _).
  exists x. split; assumption.
Qed.

(** C6 (amended): on every grid of at least two points, each of the three
    integrators returns a sequence of the length of the grid. *)
Theorem result_length (m : method) (f : A -> A -> A) (t : list A) (x0 : A) :
  (2 <= length t)%nat ->
  exists x, integrate m f t x0 = Ok x /\ length x = length t.
Proof.
  intros Ht. rewrite integrate_march.
  destruct (march_recurrence (step_of m f) t x0 Ht)
    as (t0 & t1 & x & _ & _ & Hx & Hlen & _).
  exists x. split; assumption.
Qed.

(** The value of the last point of a grid of three or more points does not
    reach the output. *)
Lemma march_last_point (g : A -> A -> A -> A) (x0 : A) (t : list A) (a b : A) :
  (2 <= length t)%nat ->
  march g (t ++ [a]) x0 = march g (t ++ [b]) x0.
Proof.
  intros Ht.
  destruct t as [|t0 [|t1 ts]]; simpl in Ht; try lia.
  change ((t0 :: t1 :: ts) ++ [a]) with (t0 :: t1 :: (ts ++ [a])).
  change ((t0 :: t1 :: ts) ++ [b]) with (t0 :: t1 :: (ts ++ [b])).
  rewrite !march_trajectory.
  assert (Hcut : forall c : A,
    take (S (length (ts ++ [c]))) (t0 :: t1 :: ts ++ [c]) = t0 :: t1 :: ts).
  { intros c. rewrite length_app. simpl length.
    replace (S (length ts + 1)) with (length (t0 :: t1 :: ts)) by (simpl; lia).
    apply (take_app_length (t0 :: t1 :: ts) [c]). }
  rewrite !Hcut. reflexivity.
Qed.

(** C10: for each of the three integrators, entry [i] of the output depends
    on the grid only through [t[0] .. t[max(i-1, 1)]]: two grids of length
    at least [max(i+1, 2)] that agree at these indices give, with the same
    [f] and [x0], outputs that agree at every index [0 .. i]; and on a grid
    of length [N >= 3] the value of the last point [t[N-1]] changes no entry
    of the output. *)
Theorem output_depends_on_grid_prefix (m : method) (f : A -> A -> A) (x0 : A) :
  (forall (i : nat) (u v : list A),
     (Nat.max (i + 1) 2 <= length u)%nat ->
     (Nat.max (i + 1) 2 <= length v)%nat ->
     (forall j, (j <= Nat.max (i - 1) 1)%nat -> u !! j = v !! j) ->
     exists xs ys,
       integrate m f u x0 = Ok xs /\ integrate m f v x0 = Ok ys /\
       forall j, (j <= i)%nat -> is_Some (xs !! j) /\ xs !! j = ys !! j) /\
  (forall (t : list A) (a b : A),
     (2 <= length t)%nat ->
     integrate m f (t ++ [a]) x0 = integrate m f (t ++ [b]) x0).
Proof.
  split.
  - intros i u v Hu Hv Huv. rewrite !integrate_march.
    destruct (march_prefix (step_of m f) x0 i u v Hu Hv Huv)
      as (xs & ys & Hxs & Hys & Hlen & Htake).
    exists xs, ys. split; [assumption|]. split; [assumption|].
    intros j Hj. split.
    + apply lookup_lt_is_Some_2. lia.
    + rewrite <- (lookup_take_lt xs (S i) j) by lia.
      rewrite <- (lookup_take_lt ys (S i) j) by lia.
      rewrite Htake. reflexivity.
  - intros t a b Ht. rewrite !integrate_march. apply march_last_point, Ht.
Qed.

End Structure.

(** ** Runs on binary64, the numbers of numpy *)

(** The scenario of the unit slope: [h = 1] and [f = 1]. *)
Example Euler_unit_slope_binary64 :
  Euler (fun _ _ => 1%float) [0; 1; 2; 3]%float 0%float = Ok [0; 1; 2; 3]%float.
Proof. vm_compute. reflexivity. Qed.

(** The step is [t[1] - t[0]] also where the later points are spaced otherwise. *)
Example Euler_uneven_grid_binary64 :
  Euler (fun _ _ => 1%float) [0; 1; 5; 6]%float 0%float = Ok [0; 1; 2; 3]%float.
Proof. vm_compute. reflexivity. Qed.

Example RK4_exponential_binary64 :
  RK4 (fun x _ => x) [0; 1]%float 24%float = Ok [24; 65]%float.
Proof. vm_compute. reflexivity. Qed.

(** The zero right-hand side, and the zero step between equal grid points. *)
Example zero_rhs_binary64 :
  RK4 (fun _ _ => 0%float) [0; 0.5; 1]%float 3%float = Ok [3; 3; 3]%float.
Proof. vm_compute. reflexivity. Qed.

Example zero_step_binary64 :
  RK2 (fun x t => x * t)%float [2; 2; 7]%float 3%float = Ok [3; 3; 3]%float.
Proof. vm_compute. reflexivity. Qed.

(** ** The theorems at concrete inputs *)

Lemma degenerate_grid_raises_witness :
  integrate rk4 (fun x _ => x) [0%float] 1%float = Raise IndexError.
Proof. apply degenerate_grid_raises. simpl. lia. Defined.

(** C1 does not hold: a grid of one point does not give [[x0]], nor the empty
    grid an empty result; the three integrators raise [IndexError]. *)
Lemma degenerate_grid_not_graceful :
  (Euler (fun x _ => x) [0%float] 1%float = Raise IndexError /\
   RK2 (fun x _ => x) [0%float] 1%float = Raise IndexError /\
   RK4 (fun x _ => x) [0%float] 1%float = Raise IndexError) /\
  Euler (fun x _ => x) [0%float] 1%float <> Ok [1%float] /\
  Euler (fun x _ => x) ([] : list float) 1%float <> Ok [].
Proof.
  split; [repeat split; vm_compute; reflexivity|].
  split; vm_compute; discriminate.
Qed.

Lemma Euler_recurrence_witness :
  exists x, Euler (fun x t => x + t)%float [0; 1; 5]%float 1%float = Ok x /\
            length x = 3%nat /\ x !! 0%nat = Some 1%float /\
            x !! 1%nat = Some 2%float.
Proof.
  destruct (Euler_recurrence (fun x t => x + t)%float [0; 1; 5]%float 1%float)
    as (t0 & t1 & x & Ht0 & Ht1 & Hx & Hlen & Hx0 & Hrec); [simpl; lia|].
  injection Ht0 as <-. injection Ht1 as <-.
  destruct (Hrec 0%nat) as (xi & ti & Hxi & Hti & Hnext); [simpl; lia|].
  rewrite Hx0 in Hxi. injection Hxi as <-. injection Hti as <-.
  exists x. repeat split; [exact Hx | exact Hlen | exact Hx0 | exact Hnext].
Defined.

Lemma RK2_recurrence_witness :
  exists x, RK2 (fun x t => x + t)%float [0; 1; 5]%float 1%float = Ok x /\
            length x = 3%nat /\ x !! 0%nat = Some 1%float /\
            x !! 1%nat = Some 3%float.
Proof.
  destruct (RK2_recurrence (fun x t => x + t)%float [0; 1; 5]%float 1%float)
    as (t0 & t1 & x & Ht0 & Ht1 & Hx & Hlen & Hx0 & Hrec); [simpl; lia|].
  injection Ht0 as <-. injection Ht1 as <-.
  destruct (Hrec 0%nat) as (xi & ti & Hxi & Hti & Hnext); [simpl; lia|].
  rewrite Hx0 in Hxi. injection Hxi as <-. injection Hti as <-.
  exists x. repeat split; [exact Hx | exact Hlen | exact Hx0 | exact Hnext].
Defined.

Lemma RK4_recurrence_witness :
  exists x, RK4 (fun x _ => x) [0; 1; 5]%float 24%float = Ok x /\
            length x = 3%nat /\ x !! 0%nat = Some 24%float /\
            x !! 1%nat = Some 65%float.
Proof.
  destruct (RK4_recurrence (fun x _ => x) [0; 1; 5]%float 24%float)
    as (t0 & t1 & x & Ht0 & Ht1 & Hx & Hlen & Hx0 & Hrec); [simpl; lia|].
  injection Ht0 as <-. injection Ht1 as <-.
  destruct (Hrec 0%nat) as (xi & ti & Hxi & Hti & Hnext); [simpl; lia|].
  rewrite Hx0 in Hxi. injection Hxi as <-. injection Hti as <-.
  exists x. repeat split; [exact Hx | exact Hlen | exact Hx0 | exact Hnext].
Defined.

Lemma first_entry_is_x0_witness :
  exists x, integrate rk2 (fun x t => x * t)%float [0; 2]%float 3%float = Ok x /\
            x !! 0%nat = Some 3%float.
Proof.
  apply (first_entry_is_x0 rk2 (fun x t => x * t)%float [0; 2]%float 3%float).
  simpl. lia.
Defined.

(** C5 does not hold on a grid of one point, which is not empty: there is
    no returned sequence to start with [x0]. *)
Lemma one_point_grid_no_first_entry :
  (Euler (fun _ _ => 1%float) [0%float] 3%float = Raise IndexError /\
   RK2 (fun _ _ => 1%float) [0%float] 3%float = Raise IndexError /\
   RK4 (fun _ _ => 1%float) [0%float] 3%float = Raise IndexError) /\
  ~ (exists x, Euler (fun _ _ => 1%float) [0%float] 3%float = Ok x /\
               x !! 0%nat = Some 3%float).
Proof.
  split; [repeat split; vm_compute; reflexivity|].
  intros (x & Hx & _). vm_compute in Hx. discriminate Hx.
Qed.

Lemma result_length_witness :
  exists x, integrate rk4 (fun x t => x * t)%float [0; 2; 4; 6]%float 3%float = Ok x /\
            length x = 4%nat.
Proof.
  apply (result_length rk4 (fun x t => x * t)%float [0; 2; 4; 6]%float 3%float).
  simpl. lia.
Defined.

(** C6 does not hold on the empty grid nor on a grid of one point: there is
    no returned sequence to be as long as the grid. *)
Lemma short_grid_no_result :
  (Euler (fun _ _ => 1%float) [] 3%float = Raise IndexError /\
   RK2 (fun _ _ => 1%float) [] 3%float = Raise IndexError /\
   RK4 (fun _ _ => 1%float) [] 3%float = Raise IndexError) /\
  ~ (exists x, Euler (fun _ _ => 1%float) [] 3%float = Ok x /\
               length x = length ([] : list float)) /\
  ~ (exists x, Euler (fun _ _ => 1%float) [7%float] 3%float = Ok x /\
               length x = length [7%float]).
Proof.
  split; [repeat split; vm_compute; reflexivity|].
  split; intros (x & Hx & _); vm_compute in Hx; discriminate Hx.
Qed.

Lemma output_depends_on_grid_prefix_witness :
  exists xs ys,
    integrate rk4 (fun x t => x * t)%float [0; 1; 2; 5]%float 1%float = Ok xs /\
    integrate rk4 (fun x t => x * t)%float [0; 1; 2; 9]%float 1%float = Ok ys /\
    forall j, (j <= 3)%nat -> is_Some (xs !! j) /\ xs !! j = ys !! j.
Proof.
  apply (proj1 (output_depends_on_grid_prefix rk4 (fun x t => x * t)%float 1%float)
           3%nat [0; 1; 2; 5]%float [0; 1; 2; 9]%float).
  - simpl. lia.
  - simpl. lia.
  - intros [|[|[|j]]] Hj; [reflexivity | reflexivity | reflexivity | simpl in Hj; lia].
Defined.

(** ** Further properties of the control flow, for every arithmetic *)

Section Composition.
Context {A : Type} `{Arith A}.
Local Open Scope num_scope.

(** The value reached after the steps along [ts]. *)
Lemma trajectory_snoc (g : A -> A -> A) (x : A) (ts : list A) :
  trajectory g x ts
  = take (length ts) (trajectory g x ts) ++ [foldl g x ts].
Proof.
  revert x. induction ts as [|a ts IH]; intros x; [reflexivity|].
  cbn [trajectory length take foldl app]. f_equal. apply IH.
Qed.

Lemma trajectory_app (g : A -> A -> A) (x : A) (l1 l2 : list A) :
  trajectory g x (l1 ++ l2)
  = take (length l1) (trajectory g x l1) ++ trajectory g (foldl g x l1) l2.
Proof.
  revert x. induction l1 as [|a l1 IH]; intros x; [reflexivity|].
  cbn [trajectory length take foldl app]. f_equal. apply IH.
Qed.

(** X1: an integrator returns exactly on the grids of at least two points. *)
Theorem integrate_Ok_iff (m : method) (f : A -> A -> A) (t : list A) (x0 : A) :
  (exists x, integrate m f t x0 = Ok x) <-> (2 <= length t)%nat.
Proof.
  split.
  - intros [x Hx]. apply (integrate_Ok_inv m f t x0 x Hx).
  - intros Ht. rewrite integrate_march.
    destruct (march_recurrence (step_of m f) t x0 Ht)
      as (t0 & t1 & x & _ & _ & Hx & _).
    exists x. exact Hx.
Qed.

(** X2: integration can be stopped and resumed: the run over [t ++ s] is the run
    over [t] followed by the run over [s] that starts at the last point of
    [t] with the last value reached, provided that the resumed run has the
    step of the first, [s[0] - t[N-1] = t[1] - t[0]]. *)
Theorem integrate_resume (m : method) (f : A -> A -> A)
    (t s : list A) (x0 t0 t1 tl s0 : A) (xs : list A) :
  t !! 0%nat = Some t0 -> t !! 1%nat = Some t1 ->
  last t = Some tl -> s !! 0%nat = Some s0 ->
  s0 - tl = t1 - t0 ->
  integrate m f t x0 = Ok xs ->
  exists xl ys,
    last xs = Some xl /\
    integrate m f (tl :: s) xl = Ok (xl :: ys) /\
    integrate m f (t ++ s) x0 = Ok (xs ++ ys).
Proof.
  intros Ht0 Ht1 Hlast Hs0 Hstep. rewrite !integrate_march.
  destruct t as [|a [|b ts]]; try discriminate.
  injection Ht0 as ->. injection Ht1 as ->.
  destruct s as [|c ss]; try discriminate. injection Hs0 as ->.
  set (g := step_of m f (t1 - t0)).
  rewrite march_trajectory. fold g. intros Hxs.
  assert (Exs : xs = trajectory g x0 (take (S (length ts)) (t0 :: t1 :: ts)))
    by congruence.
  clear Hxs.
  destruct (exists_last (l := t0 :: t1 :: ts) ltac:(discriminate)) as (p & tl' & Hp).
  rewrite Hp in Hlast. rewrite last_snoc in Hlast. injection Hlast as ->.
  assert (Hlen : length p = S (length ts)).
  { apply (f_equal length) in Hp. rewrite length_app in Hp. simpl in Hp. lia. }
  assert (Htake : take (S (length ts)) (t0 :: t1 :: ts) = p).
  { rewrite Hp, <- Hlen. apply take_app_length. }
  rewrite Htake in Exs. subst xs.
  exists (foldl g x0 p), (trajectory g (g (foldl g x0 p) tl) (take (length ss) (s0 :: ss))).
  split; [|split].
  - rewrite (trajectory_snoc g x0 p). apply last_snoc.
  - rewrite integrate_march, march_trajectory, Hstep. fold g. reflexivity.
  - change ((t0 :: t1 :: ts) ++ s0 :: ss) with (t0 :: t1 :: (ts ++ s0 :: ss)).
    rewrite march_trajectory. fold g. f_equal.
    change (t0 :: t1 :: ts ++ s0 :: ss) with ((t0 :: t1 :: ts) ++ s0 :: ss).
    rewrite Hp, <- app_assoc.
    replace (S (length (ts ++ s0 :: ss))) with (length p + S (length ss))%nat
      by (rewrite length_app; simpl; lia).
    rewrite take_app_add. cbn [app take].
    rewrite trajectory_app.
    rewrite (trajectory_snoc g x0 p) at 2. rewrite <- app_assoc. reflexivity.
Qed.

(** X3: with a right-hand side that does not depend on the time, the output
    depends on the grid through its length and its first step only. *)
Theorem autonomous_grid_irrelevant (m : method) (phi : A -> A)
    (u v : list A) (x0 u0 u1 v0 v1 : A) :
  u !! 0%nat = Some u0 -> u !! 1%nat = Some u1 ->
  v !! 0%nat = Some v0 -> v !! 1%nat = Some v1 ->
  length u = length v ->
  u1 - u0 = v1 - v0 ->
  integrate m (fun x _ => phi x) u x0 = integrate m (fun x _ => phi x) v x0.
Proof.
  intros Hu0 Hu1 Hv0 Hv1 Hlen Hstep. rewrite !integrate_march.
  destruct u as [|a [|b us]]; try discriminate.
  destruct v as [|c [|d vs]]; try discriminate.
  injection Hu0 as ->. injection Hu1 as ->. injection Hv0 as ->. injection Hv1 as ->.
  rewrite !march_trajectory, Hstep. f_equal.
  simpl in Hlen. injection Hlen as Hlen. rewrite Hlen.
  set (g := step_of m (fun x _ => phi x) (v1 - v0)).
  assert (Hg : forall x a b, g x a = g x b) by (intros; destruct m; reflexivity).
  generalize (take (S (length vs)) (u0 :: u1 :: us))
             (take (S (length vs)) (v0 :: v1 :: vs))
             (eq_trans (length_take_le (u0 :: u1 :: us) (S (length vs))
                          ltac:(simpl; lia))
                       (eq_sym (length_take_le (v0 :: v1 :: vs) (S (length vs))
                          ltac:(simpl; lia)))).
  intros l1. revert x0. induction l1 as [|a l1 IH]; intros x0 [|b l2] Hl;
    try discriminate; [reflexivity|].
  cbn [trajectory]. rewrite (Hg x0 a b). f_equal. apply IH.
  simpl in Hl. lia.
Qed.

End Composition.

(** ** The evaluations of the right-hand side *)

Section Evaluations.
Context {A : Type} `{Arith A}.
Local Open Scope num_scope.

(** The loop with the log, for a body that behaves as one step [g] with the
    evaluations [ev]. *)
Lemma for_range_traced_trajectory (g : A -> A -> A) (ev : A -> A -> list (A * A))
    (body : nat -> list A -> traced A (list A)) (t : list A) :
  (forall i xs xi ti rest, length xs = i -> t !! i = Some ti ->
     body i (xs ++ xi :: lit 0 :: rest)
     = (ev xi ti, Ok (xs ++ xi :: g xi ti :: rest))) ->
  forall n i xs xi,
    length xs = i -> (i + n <= length t)%nat ->
    for_range_traced body i n (xs ++ xi :: zeros n)
    = (evals_along g ev xi (take n (drop i t)),
       Ok (xs ++ trajectory g xi (take n (drop i t)))).
Proof.
  intros Hbody. induction n as [|n IH]; intros i xs xi Hxs Hin.
  - reflexivity.
  - destruct (lookup_lt_is_Some_2 t i ltac:(lia)) as [ti Hti].
    rewrite (drop_S _ _ _ Hti).
    cbn [take trajectory evals_along for_range_traced zeros replicate].
    rewrite (Hbody i xs xi ti (replicate n (lit 0)) Hxs Hti).
    cbn [traced_bind].
    replace (xs ++ xi :: g xi ti :: replicate n (lit 0))
      with ((xs ++ [xi]) ++ g xi ti :: zeros n)
      by (rewrite <- app_assoc; reflexivity).
    rewrite (IH (S i)) by (rewrite ?length_app; simpl; lia).
    rewrite <- app_assoc. reflexivity.
Qed.

Lemma body_cells (xs : list A) (xi z : A) (rest : list A) (i : nat) (v : A) :
  length xs = i ->
  getitem (xs ++ xi :: z :: rest) i = Ok xi /\
  setitem (xs ++ xi :: z :: rest) (i + 1)%nat v = Ok (xs ++ xi :: v :: rest).
Proof.
  intros Hxs. split.
  - apply getitem_Some. rewrite lookup_app_r by lia.
    replace (i - length xs)%nat with 0%nat by lia. reflexivity.
  - rewrite setitem_lt by (rewrite length_app; simpl; lia). f_equal.
    rewrite insert_app_r_alt by lia.
    replace (i + 1 - length xs)%nat with 1%nat by lia. reflexivity.
Qed.

Lemma bind_quiet_Ok {T U : Type} (k : T -> traced A U) (v : T) :
  traced_bind k (quiet (Ok v)) = k v.
Proof. unfold traced_bind, quiet. destruct (k v). reflexivity. Qed.

Lemma bind_call {U : Type} (k : A -> traced A U) (f : A -> A -> A) (x t : A) :
  traced_bind k (call f x t) = ((x, t) :: fst (k (f x t)), snd (k (f x t))).
Proof. unfold traced_bind, call. destruct (k (f x t)). reflexivity. Qed.

(** The start of the three functions, up to the loop. *)
Lemma traced_start (body : A -> nat -> list A -> traced A (list A))
    (t0 t1 : A) (ts : list A) (x0 : A) :
  traced_bind (fun t1' => traced_bind (fun t0' =>
      let h := t1' - t0' in
      let x := zeros (length (t0 :: t1 :: ts)) in
      traced_bind (fun x =>
          for_range_traced (body h) 0 (length (t0 :: t1 :: ts) - 1)%nat x)
        (quiet (setitem x 0 x0)))
    (quiet (getitem (t0 :: t1 :: ts) 0))) (quiet (getitem (t0 :: t1 :: ts) 1))
  = for_range_traced (body (t1 - t0)) 0 (S (length ts))
      ([] ++ x0 :: zeros (S (length ts))).
Proof.
  change (getitem (t0 :: t1 :: ts) 1) with (Ok t1).
  change (getitem (t0 :: t1 :: ts) 0) with (Ok t0).
  rewrite !bind_quiet_Ok. cbv zeta.
  rewrite setitem_lt by (simpl; lia). rewrite bind_quiet_Ok.
  replace (length (t0 :: t1 :: ts) - 1)%nat with (S (length ts)) by (simpl; lia).
  reflexivity.
Qed.

(** What each instrumented function computes: the evaluation points along
    the trajectory, and the trajectory. *)
Lemma integrate_traced_grid (m : method) (f : A -> A -> A) (t0 t1 : A) (ts : list A) (x0 : A) :
  integrate_traced m f (t0 :: t1 :: ts) x0
  = (evals_along (step_of m f (t1 - t0)) (evals_of m f (t1 - t0)) x0
       (take (S (length ts)) (t0 :: t1 :: ts)),
     Ok (trajectory (step_of m f (t1 - t0)) x0
           (take (S (length ts)) (t0 :: t1 :: ts)))).
Proof.
  destruct m; cbn [integrate_traced].
  - unfold Euler_traced.
    rewrite (traced_start (fun h i x =>
      traced_bind (fun xi => traced_bind (fun ti => traced_bind (fun d =>
        quiet (setitem x (i + 1)%nat (xi + h * d))) (call f xi ti))
        (quiet (getitem (t0 :: t1 :: ts) i))) (quiet (getitem x i)))).
    match goal with |- context [for_range_traced ?b] => set (body := b) end.
    rewrite (for_range_traced_trajectory (step_of euler f (t1 - t0))
               (evals_of euler f (t1 - t0)) body (t0 :: t1 :: ts));
      [reflexivity | | reflexivity | simpl; lia].
    subst body. intros i xs xi ti rest Hxs Hti. cbv beta.
    destruct (body_cells xs xi (lit 0) rest i (step_of euler f (t1 - t0) xi ti) Hxs)
      as [Hget Hset].
    rewrite Hget, bind_quiet_Ok, (getitem_Some _ _ _ Hti), bind_quiet_Ok, bind_call.
    cbn [fst snd quiet]. cbn [step_of] in Hset. unfold euler_step in Hset.
    rewrite Hset. reflexivity.
  - unfold RK2_traced.
    rewrite (traced_start (fun h i x =>
      traced_bind (fun xi => traced_bind (fun ti => traced_bind (fun d1 =>
        let k1 := h * d1 in
        traced_bind (fun d2 =>
          let k2 := h * d2 in
          quiet (setitem x (i + 1)%nat (xi + k2)))
          (call f (xi + k1 / lit 2) (ti + h / lit 2))) (call f xi ti))
        (quiet (getitem (t0 :: t1 :: ts) i))) (quiet (getitem x i)))).
    match goal with |- context [for_range_traced ?b] => set (body := b) end.
    rewrite (for_range_traced_trajectory (step_of rk2 f (t1 - t0))
               (evals_of rk2 f (t1 - t0)) body (t0 :: t1 :: ts));
      [reflexivity | | reflexivity | simpl; lia].
    subst body. intros i xs xi ti rest Hxs Hti. cbv beta.
    destruct (body_cells xs xi (lit 0) rest i (step_of rk2 f (t1 - t0) xi ti) Hxs)
      as [Hget Hset].
    rewrite Hget, bind_quiet_Ok, (getitem_Some _ _ _ Hti), bind_quiet_Ok, bind_call.
    cbv zeta. rewrite bind_call.
    cbn [fst snd quiet]. cbn [step_of] in Hset. unfold rk2_step in Hset.
    cbv zeta in Hset. rewrite Hset. reflexivity.
  - unfold RK4_traced.
    rewrite (traced_start (fun h i x =>
      traced_bind (fun xi => traced_bind (fun ti => traced_bind (fun d1 =>
        let k1 := h * d1 in
        traced_bind (fun d2 =>
          let k2 := h * d2 in
          traced_bind (fun d3 =>
            let k3 := h * d3 in
            traced_bind (fun d4 =>
              let k4 := h * d4 in
              quiet (setitem x (i + 1)%nat
                       (xi + lit 1 / lit 6 * (k1 + lit 2 * k2 + lit 2 * k3 + k4))))
              (call f (xi + k3) (ti + h)))
            (call f (xi + k2 / lit 2) (ti + h / lit 2)))
          (call f (xi + k1 / lit 2) (ti + h / lit 2))) (call f xi ti))
        (quiet (getitem (t0 :: t1 :: ts) i))) (quiet (getitem x i)))).
    match goal with |- context [for_range_traced ?b] => set (body := b) end.
    rewrite (for_range_traced_trajectory (step_of rk4 f (t1 - t0))
               (evals_of rk4 f (t1 - t0)) body (t0 :: t1 :: ts));
      [reflexivity | | reflexivity | simpl; lia].
    subst body. intros i xs xi ti rest Hxs Hti. cbv beta.
    destruct (body_cells xs xi (lit 0) rest i (step_of rk4 f (t1 - t0) xi ti) Hxs)
      as [Hget Hset].
    rewrite Hget, bind_quiet_Ok, (getitem_Some _ _ _ Hti), bind_quiet_Ok, bind_call.
    cbv zeta. rewrite !bind_call.
    cbn [fst snd quiet]. cbn [step_of] in Hset. unfold rk4_step in Hset.
    cbv zeta in Hset. rewrite Hset. reflexivity.
Qed.

Lemma integrate_traced_short (m : method) (f : A -> A -> A) (t : list A) (x0 : A) :
  (length t < 2)%nat -> integrate_traced m f t x0 = ([], Raise IndexError).
Proof.
  intros Ht. destruct t as [|a [|b ts]]; [| |simpl in Ht; lia];
    destruct m; reflexivity.
Qed.

Lemma length_evals_along (g : A -> A -> A) (ev : A -> A -> list (A * A)) (k : nat) :
  (forall x ti, length (ev x ti) = k) ->
  forall ts x, length (evals_along g ev x ts) = (k * length ts)%nat.
Proof.
  intros Hev. induction ts as [|a ts IH]; intros x; cbn [evals_along length].
  - lia.
  - rewrite length_app, Hev, IH. lia.
Qed.

Lemma evals_along_euler (f : A -> A -> A) (h : A) (g : A -> A -> A) (ts : list A) :
  forall x, evals_along g (evals_of euler f h) x ts = zip (trajectory g x ts) ts.
Proof.
  induction ts as [|a ts IH]; intros x; [reflexivity|].
  cbn [evals_along evals_of trajectory zip_with app]. f_equal. apply IH.
Qed.

(** The instrumented functions return what the plain ones return: the log is
    an observation, it changes nothing. *)
Lemma integrate_traced_result (m : method) (f : A -> A -> A) (t : list A) (x0 : A) :
  snd (integrate_traced m f t x0) = integrate m f t x0.
Proof.
  destruct (decide (length t < 2)%nat) as [Ht|Ht].
  - rewrite integrate_traced_short, integrate_march, march_short by assumption.
    reflexivity.
  - destruct t as [|t0 [|t1 ts]]; simpl in Ht; try lia.
    rewrite integrate_traced_grid, integrate_march, march_trajectory. reflexivity.
Qed.

(** X4: each call of an integrator on a grid of [N] points evaluates [f]
    [N - 1] times (Euler), [2 (N - 1)] times (RK2) or [4 (N - 1)] times
    (RK4), and not at all on a grid of fewer than two points, where it
    raises before the loop. *)
Theorem evaluations_count (m : method) (f : A -> A -> A) (t : list A) (x0 : A) :
  length (fst (integrate_traced m f t x0)) = (stages m * (length t - 1))%nat /\
  snd (integrate_traced m f t x0) = integrate m f t x0.
Proof.
  split; [|apply integrate_traced_result].
  destruct (decide (length t < 2)%nat) as [Ht|Ht].
  - rewrite integrate_traced_short by assumption.
    replace (length t - 1)%nat with 0%nat by lia. simpl. lia.
  - destruct t as [|t0 [|t1 ts]]; simpl in Ht; try lia.
    rewrite integrate_traced_grid. cbn [fst].
    rewrite (length_evals_along _ _ (stages m)) by (intros; destruct m; reflexivity).
    rewrite length_take. simpl. lia.
Qed.

(** X5: [Euler] evaluates [f] at the pairs [(x[i], t[i])] for [i = 0 .. N-2], in
    this order and nowhere else: neither the last value [x[N-1]] nor the last
    grid point [t[N-1]] is ever passed to [f]. *)
Theorem Euler_evaluation_points (f : A -> A -> A) (t : list A) (x0 : A) (x : list A) :
  Euler f t x0 = Ok x ->
  fst (Euler_traced f t x0) = zip x (take (length t - 1) t).
Proof.
  intros Hx.
  destruct (march_Ok_inv (euler_step f) t x0 x Hx) as (t0 & t1 & ts & -> & ->).
  change (Euler_traced f (t0 :: t1 :: ts) x0)
    with (integrate_traced euler f (t0 :: t1 :: ts) x0).
  rewrite integrate_traced_grid. cbn [fst step_of].
  rewrite evals_along_euler.
  replace (length (t0 :: t1 :: ts) - 1)%nat with (S (length ts)) by (simpl; lia).
  reflexivity.
Qed.

End Evaluations.

(** ** The further theorems at concrete inputs *)

Lemma integrate_resume_witness :
  exists xl ys,
    last [0; 1; 2]%float = Some xl /\
    integrate rk2 (fun _ _ => 1%float) [2; 3; 4]%float xl = Ok (xl :: ys) /\
    integrate rk2 (fun _ _ => 1%float) ([0; 1; 2] ++ [3; 4])%float 0%float
    = Ok ([0; 1; 2]%float ++ ys).
Proof.
  apply (integrate_resume rk2 (fun _ _ => 1%float) [0; 1; 2]%float [3; 4]%float
           0%float 0%float 1%float 2%float 3%float [0; 1; 2]%float);
    vm_compute; reflexivity.
Defined.

Lemma autonomous_grid_irrelevant_witness :
  integrate rk4 (fun x _ => x * x)%float [0; 1; 5]%float 1%float
  = integrate rk4 (fun x _ => x * x)%float [10; 11; 3]%float 1%float.
Proof.
  apply (autonomous_grid_irrelevant rk4 (fun x => x * x)%float
           [0; 1; 5]%float [10; 11; 3]%float 1%float 0%float 1%float 10%float 11%float);
    vm_compute; reflexivity.
Defined.

Lemma Euler_evaluation_points_witness :
  fst (Euler_traced (fun _ _ => 1%float) [0; 1; 5]%float 0%float)
  = [(0, 0); (1, 1)]%float.
Proof.
  apply (Euler_evaluation_points (fun _ _ => 1%float) [0; 1; 5]%float 0%float
           [0; 1; 2]%float).
  vm_compute. reflexivity.
Defined.

(** ** binary64: zeros, finite numbers and NaN under the operations *)

Lemma SFcompare_refl (x : spec_float) : sf_nan x = false -> SFcompare x x = Some Eq.
Proof.
  destruct x as [s|s| |s m e]; simpl; try discriminate; intros _.
  - reflexivity.
  - destruct s; reflexivity.
  - destruct s; rewrite Z.compare_refl, Pos.compare_cont_refl; reflexivity.
Qed.

Lemma is_zero_sf (z : float) : is_zero z = sf_zero (Prim2SF z).
Proof.
  unfold is_zero. rewrite FloatAxioms.eqb_spec.
  change (Prim2SF zero) with (S754_zero false).
  destruct (Prim2SF z) as [s|s| |s m e]; try destruct s; reflexivity.
Qed.

Lemma is_nan_sf (x : float) : is_nan x = sf_nan (Prim2SF x).
Proof.
  unfold is_nan. rewrite FloatAxioms.eqb_spec. unfold SFeqb.
  destruct (Prim2SF x) as [s|s| |s m e] eqn:E; try reflexivity.
  - destruct s; reflexivity.
  - rewrite SFcompare_refl by reflexivity. reflexivity.
Qed.

Lemma is_finite_sf (x : float) : is_finite x = sf_finite (Prim2SF x).
Proof.
  unfold is_finite. rewrite is_nan_sf. unfold is_infinity.
  rewrite FloatAxioms.eqb_spec, FloatAxioms.abs_spec.
  change (Prim2SF infinity) with (S754_infinity false).
  destruct (Prim2SF x) as [s|s| |s m e]; try destruct s; reflexivity.
Qed.

Lemma mul_finite_zero (h z : float) :
  is_finite h = true -> is_zero z = true -> is_zero (h * z) = true.
Proof.
  rewrite is_finite_sf, !is_zero_sf, FloatAxioms.mul_spec. unfold SF64mul.
  destruct (Prim2SF h), (Prim2SF z); simpl; congruence.
Qed.


Lemma add_zero_zero (a b : float) :
  is_zero a = true -> is_zero b = true -> is_zero (a + b) = true.
Proof.
  rewrite !is_zero_sf, FloatAxioms.add_spec. unfold SF64add.
  destruct (Prim2SF a) as [[]|[]| |], (Prim2SF b) as [[]|[]| |]; simpl; congruence.
Qed.

Lemma div_zero_two (z : float) : is_zero z = true -> is_zero (z / 2) = true.
Proof.
  rewrite !is_zero_sf, FloatAxioms.div_spec. unfold SF64div.
  change (Prim2SF 2) with (S754_finite false 4503599627370496 (-51)).
  destruct (Prim2SF z); simpl; congruence.
Qed.

Lemma eqb_add_zero (x x0 z : float) :
  (x =? x0)%float = true -> is_zero z = true -> (x + z =? x0)%float = true.
Proof.
  rewrite is_zero_sf, !FloatAxioms.eqb_spec, FloatAxioms.add_spec. unfold SF64add.
  destruct (Prim2SF z) as [sz|sz| |sz mz ez]; try discriminate. intros Hx _.
  destruct (Prim2SF x) as [[]|[]| |sx mx ex]; try exact Hx;
    destruct (Prim2SF x0) as [[]|[]| |s0 m0 e0]; try exact Hx;
    destruct sz; try exact Hx; try reflexivity.
Qed.

Lemma add_zero_eq (x z : float) :
  is_zero x = false -> is_zero z = true -> (x + z)%float = x.
Proof.
  rewrite !is_zero_sf. intros Hx Hz. apply Prim2SF_inj.
  rewrite FloatAxioms.add_spec. unfold SF64add.
  destruct (Prim2SF z) as [sz|sz| |sz mz ez]; try discriminate.
  destruct (Prim2SF x) as [[]|[]| |sx mx ex]; try discriminate; reflexivity.
Qed.


Lemma nan_add (x y : float) : is_nan x = true -> is_nan (x + y) = true.
Proof.
  rewrite !is_nan_sf, FloatAxioms.add_spec. unfold SF64add.
  destruct (Prim2SF x); try discriminate. reflexivity.
Qed.

(** ** Steps that agree, and properties kept along a trajectory *)

Section Invariants.
Context {A : Type} `{Arith A}.
Local Open Scope num_scope.


Lemma trajectory_invariant (P : A -> Prop) (g : A -> A -> A) :
  (forall x ti, P x -> P (g x ti)) ->
  forall (ts : list A) (x : A), P x ->
  forall i e, trajectory g x ts !! i = Some e -> P e.
Proof.
  intros Hg. induction ts as [|a ts IH]; intros x Hx i e Hi.
  - destruct i as [|i]; [|discriminate]. injection Hi as <-. exact Hx.
  - destruct i as [|i].
    + injection Hi as <-. exact Hx.
    + apply (IH (g x a) (Hg x a Hx) i e). exact Hi.
Qed.

(** The entries from index [i] on are the trajectory that starts at entry [i]. *)
Lemma trajectory_from (g : A -> A -> A) :
  forall (ts : list A) (x : A) (i : nat) (e : A),
  trajectory g x ts !! i = Some e ->
  forall j, trajectory g x ts !! (i + j)%nat = trajectory g e (drop i ts) !! j.
Proof.
  induction ts as [|a ts IH]; intros x i e Hi j.
  - destruct i as [|i]; [|discriminate]. injection Hi as <-. reflexivity.
  - destruct i as [|i].
    + injection Hi as <-. reflexivity.
    + apply (IH (g x a) i e Hi j).
Qed.

(** A step that leaves the value unchanged gives a constant trajectory. *)
Lemma trajectory_fixed (g : A -> A -> A) (x : A) (ts : list A) :
  (forall ti, g x ti = x) ->
  trajectory g x ts = replicate (S (length ts)) x.
Proof.
  intros Hg. induction ts as [|a ts IH]; [reflexivity|].
  cbn [trajectory length replicate]. rewrite Hg, IH. reflexivity.
Qed.

Lemma march_fixed (g : A -> A -> A -> A) (t : list A) (x0 t0 t1 : A) :
  t !! 0%nat = Some t0 -> t !! 1%nat = Some t1 ->
  (forall ti, g (t1 - t0) x0 ti = x0) ->
  march g t x0 = Ok (replicate (length t) x0).
Proof.
  intros Ht0 Ht1 Hg. destruct t as [|a [|b ts]]; try discriminate.
  injection Ht0 as ->. injection Ht1 as ->.
  rewrite march_trajectory, trajectory_fixed by assumption.
  rewrite length_take. simpl length.
  replace (S (length ts) `min` S (S (length ts)))%nat with (S (length ts)) by lia.
  reflexivity.
Qed.

(** Every step of the three methods adds an increment to the current value. *)
Lemma step_is_sum (m : method) (f : A -> A -> A) (h x ti : A) :
  exists d, step_of m f h x ti = x + d.
Proof. destruct m; eexists; reflexivity. Qed.



End Invariants.

(** ** binary64: the values along the trajectories *)

Section Binary64.
Local Open Scope float_scope.

Lemma lit_binary64 :
  (lit 0 : float) = 0 /\ (lit 1 : float) = 1 /\ (lit 2 : float) = 2 /\ (lit 6 : float) = 6.
Proof. repeat split; reflexivity. Qed.

Lemma mul_two_zero (z : float) : is_zero z = true -> is_zero (2 * z) = true.
Proof. intros Hz. apply mul_finite_zero; [reflexivity | exact Hz]. Qed.

Lemma mul_sixth_zero (z : float) : is_zero z = true -> is_zero (1 / 6 * z) = true.
Proof. intros Hz. apply mul_finite_zero; [reflexivity | exact Hz]. Qed.

(** A step whose stage increments [h * f y tau] are all zeros at the values
    [y] equal to [x0] keeps the value equal to [x0]. *)
Lemma step_keeps_value (m : method) (f : float -> float -> float) (h x0 : float) :
  (forall y tau, (y =? x0) = true -> is_zero (h * f y tau) = true) ->
  forall x ti, (x =? x0) = true -> (step_of m f h x ti =? x0) = true.
Proof.
  intros Hk x ti Hx.
  destruct m; cbn [step_of]; unfold euler_step, rk2_step, rk4_step; cbv zeta;
    cbn [add sub mul div float_arith];
    change (lit 1 : float) with 1; change (lit 2 : float) with 2;
    change (lit 6 : float) with 6.
  - apply eqb_add_zero; auto.
  - apply eqb_add_zero; [exact Hx|]. apply Hk.
    apply eqb_add_zero; [exact Hx|]. apply div_zero_two. auto.
  - set (k1 := h * f x ti).
    assert (Hk1 : is_zero k1 = true) by (apply Hk; exact Hx).
    set (k2 := h * f (x + k1 / 2) (ti + h / 2)).
    assert (Hk2 : is_zero k2 = true).
    { apply Hk. apply eqb_add_zero; [exact Hx|]. apply div_zero_two, Hk1. }
    set (k3 := h * f (x + k2 / 2) (ti + h / 2)).
    assert (Hk3 : is_zero k3 = true).
    { apply Hk. apply eqb_add_zero; [exact Hx|]. apply div_zero_two, Hk2. }
    set (k4 := h * f (x + k3) (ti + h)).
    assert (Hk4 : is_zero k4 = true).
    { apply Hk. apply eqb_add_zero; [exact Hx|]. exact Hk3. }
    apply eqb_add_zero; [exact Hx|]. apply mul_sixth_zero.
    repeat apply add_zero_zero; try apply mul_two_zero; assumption.
Qed.

Lemma integrate_keeps_value (m : method) (f : float -> float -> float)
    (t : list float) (x0 t0 t1 : float) :
  t !! 0%nat = Some t0 -> t !! 1%nat = Some t1 ->
  is_nan x0 = false ->
  (forall y tau, (y =? x0) = true -> is_zero ((t1 - t0) * f y tau) = true) ->
  exists x, integrate m f t x0 = Ok x /\ length x = length t /\
    forall i e, x !! i = Some e -> (e =? x0) = true.
Proof.
  intros Ht0 Ht1 Hnan Hk. rewrite integrate_march.
  destruct t as [|a [|b ts]]; try discriminate.
  injection Ht0 as ->. injection Ht1 as ->.
  eexists. split; [apply march_trajectory|]. split.
  - rewrite length_trajectory, length_take. simpl. lia.
  - apply (trajectory_invariant (fun e => (e =? x0) = true)).
    + intros x ti Hx. apply (step_keeps_value m f (t1 - t0) x0 Hk x ti Hx).
    + unfold is_nan in Hnan. destruct (x0 =? x0); [reflexivity|discriminate].
Qed.


(** C8 (amended): in binary64, with the zero right-hand side, on every grid
    of length at least 2 whose step [h = t[1] - t[0]] is finite, and for
    every [x0] that is not NaN, each of the three integrators returns a
    sequence all of whose entries equal [x0] (as [==] compares them). *)
Theorem zero_rhs_constant_binary64 (m : method) (t : list float) (x0 t0 t1 : float) :
  t !! 0%nat = Some t0 -> t !! 1%nat = Some t1 ->
  is_finite (t1 - t0) = true ->
  is_nan x0 = false ->
  exists x, integrate m (fun _ _ => 0) t x0 = Ok x /\ length x = length t /\
    forall i e, x !! i = Some e -> (e =? x0) = true.
Proof.
  intros Ht0 Ht1 Hh Hnan.
  apply (integrate_keeps_value m (fun _ _ => 0) t x0 t0 t1 Ht0 Ht1 Hnan).
  intros y tau _. apply mul_finite_zero; [exact Hh | reflexivity].
Qed.


(** X7: in binary64, a value [xe] other than zero at which the right-hand
    side is zero at all times is kept exactly: on every grid of length at
    least 2 with a finite step, each of the three integrators started at
    [xe] returns the constant sequence [xe]. *)
Theorem equilibrium_preserved_binary64 (m : method) (f : float -> float -> float)
    (t : list float) (xe t0 t1 : float) :
  t !! 0%nat = Some t0 -> t !! 1%nat = Some t1 ->
  is_finite (t1 - t0) = true ->
  is_zero xe = false ->
  (forall tau, is_zero (f xe tau) = true) ->
  integrate m f t xe = Ok (replicate (length t) xe).
Proof.
  intros Ht0 Ht1 Hh Hxe Hf. rewrite integrate_march.
  apply (march_fixed _ t xe t0 t1 Ht0 Ht1). intros ti.
  set (h := sub t1 t0).
  assert (Hk : forall tau, is_zero (h * f xe tau) = true)
    by (intros tau; apply mul_finite_zero; [exact Hh | apply Hf]).
  assert (Hadd : forall z, is_zero z = true -> xe + z = xe)
    by (intros z Hz; apply add_zero_eq; assumption).
  destruct m; cbn [step_of]; unfold euler_step, rk2_step, rk4_step; cbv zeta;
    cbn [add sub mul div float_arith];
    change (lit 1 : float) with 1; change (lit 2 : float) with 2;
    change (lit 6 : float) with 6.
  - apply Hadd, Hk.
  - rewrite (Hadd (h * f xe ti / 2)) by (apply div_zero_two, Hk).
    apply Hadd, Hk.
  - rewrite (Hadd (h * f xe ti / 2)) by (apply div_zero_two, Hk).
    rewrite (Hadd (h * f xe (ti + h / 2) / 2)) by (apply div_zero_two, Hk).
    rewrite (Hadd (h * f xe (ti + h / 2))) by apply Hk.
    apply Hadd, mul_sixth_zero.
    repeat apply add_zero_zero; try apply mul_two_zero; apply Hk.
Qed.

(** X11: in binary64, a NaN is never detected and never lost: once an entry
    of the returned sequence is NaN, every later entry is NaN. *)
Theorem nan_propagates (m : method) (f : float -> float -> float)
    (t : list float) (x0 : float) (x : list float) (i j : nat) (e e' : float) :
  integrate m f t x0 = Ok x ->
  x !! i = Some e -> is_nan e = true ->
  (i <= j)%nat -> x !! j = Some e' ->
  is_nan e' = true.
Proof.
  rewrite integrate_march. intros Hx Hi He Hij Hj.
  destruct (march_Ok_inv _ _ _ _ Hx) as (t0 & t1 & ts & -> & ->).
  set (g := step_of m f (sub t1 t0)) in *.
  replace j with (i + (j - i))%nat in Hj by lia.
  rewrite (trajectory_from g _ x0 i e Hi) in Hj.
  apply (trajectory_invariant (fun y => is_nan y = true) g) with (3 := Hj);
    [|exact He].
  intros y ti Hy. unfold g.
  destruct (step_is_sum m f (sub t1 t0) y ti) as [d ->].
  apply (nan_add y d Hy).
Qed.

End Binary64.

(** ** The binary64 theorems at concrete inputs *)

Section Binary64Runs.
Local Open Scope float_scope.



(** C8 does not hold in binary64 on the increasing grid of the two largest
    finite numbers: the step overflows, and the entry after [x0] is NaN. *)
Lemma zero_rhs_overflowing_step :
  (Euler (fun _ _ => 0) [-0x1.fffffffffffffp+1023; 0x1.fffffffffffffp+1023] 3
     = Ok [3; nan] /\
   RK2 (fun _ _ => 0) [-0x1.fffffffffffffp+1023; 0x1.fffffffffffffp+1023] 3
     = Ok [3; nan] /\
   RK4 (fun _ _ => 0) [-0x1.fffffffffffffp+1023; 0x1.fffffffffffffp+1023] 3
     = Ok [3; nan]) /\
  (nan =? 3) = false /\
  is_finite (0x1.fffffffffffffp+1023 - -0x1.fffffffffffffp+1023) = false.
Proof. repeat split; vm_compute; reflexivity. Qed.

Lemma zero_rhs_constant_binary64_witness :
  exists x, integrate rk4 (fun _ _ => 0) [0; 0.5; 4] (-7) = Ok x /\ length x = 3%nat /\
    forall i e, x !! i = Some e -> (e =? -7) = true.
Proof.
  apply (zero_rhs_constant_binary64 rk4 [0; 0.5; 4] (-7) 0 0.5);
    vm_compute; reflexivity.
Defined.



Lemma equilibrium_preserved_binary64_witness :
  integrate rk4 (fun x _ => (x - 5) * x) [0; 0.5; 4] 5 = Ok [5; 5; 5].
Proof.
  apply (equilibrium_preserved_binary64 rk4 (fun x _ => (x - 5) * x) [0; 0.5; 4] 5 0 0.5);
    vm_compute; reflexivity.
Defined.

Lemma nan_propagates_witness :
  exists x e,
    Euler (fun _ _ => 0) [-0x1.fffffffffffffp+1023; 0x1.fffffffffffffp+1023; 0] 3 = Ok x /\
    x !! 2%nat = Some e /\ is_nan e = true.
Proof.
  exists [3; nan; nan], nan.
  split; [vm_compute; reflexivity|]. split; [reflexivity|].
  apply (nan_propagates euler (fun _ _ => 0)
           [-0x1.fffffffffffffp+1023; 0x1.fffffffffffffp+1023; 0] 3
           [3; nan; nan] 1 2 nan nan);
    try (vm_compute; reflexivity). lia.
Defined.

End Binary64Runs.
